(** * MarketMate: the price heuristic and the listing store

    A shallow embedding of two pieces of the MarketMate PWA:
    - [suggestPrice] of [pwa/src/utils/promptBuilders.ts], and
    - the IndexedDB wrapper of [pwa/src/lib/indexeddb.ts]
      ([getDB], [saveListing], [getListing], [getAllListings],
      [deleteListing], [clearAllListings]).

    JavaScript numbers are IEEE 754 binary64 values, modelled by Rocq's
    primitive floats; the readings of [Date.now()] are integers. *)

From Stdlib Require Import Floats ZArith Lia Ascii DecimalString DecimalZ
  DecimalPos.
From stdpp Require Import gmap strings list fin_maps sorting.

Set Warnings "-inexact-float,-register-all".

(** ** A fragment of JavaScript: values, coercions, property lookup *)

Module JS.

(** The values that occur here: [undefined], [null], a number, or one of
    the members every plain object inherits from
    [Object.prototype] (eleven functions and the [__proto__] accessor, which
    yields [Object.prototype] itself), identified by the property name. *)
Inductive Value : Type :=
| Undefined
| Null
| Number (x : float)
| Inherited (name : string).

Definition NaN : float := PrimFloat.nan.

(** [ToBoolean] on numbers: [+0], [-0] and [NaN] are falsy. *)
Definition truthy_number (x : float) : bool :=
  negb (PrimFloat.is_nan x) && negb (PrimFloat.is_zero x).

Definition ToBoolean (v : Value) : bool :=
  match v with
  | Undefined => false
  | Null => false
  | Number x => truthy_number x
  | Inherited _ => true
  end.

(** [ToNumber]: [undefined] becomes [NaN], [null] becomes [+0]; a built-in
    function or [Object.prototype] is first turned into a string by
    [ToPrimitive]
    (["function Object() { [native code] }"], ["[object Object]"]), which is
    not a numeric literal, hence [NaN]. *)
Definition ToNumber (v : Value) : float :=
  match v with
  | Undefined => NaN
  | Null => PrimFloat.zero
  | Number x => x
  | Inherited _ => NaN
  end.

(** [a || b] *)
Definition or (a b : Value) : Value := if ToBoolean a then a else b.

(** [a * b] *)
Definition mul (a b : Value) : float := PrimFloat.mul (ToNumber a) (ToNumber b).

(** An optional property [p?: number] read from an object. *)
Definition of_optional (p : option float) : Value :=
  match p with
  | Some x => Number x
  | None => Undefined
  end.

(** The property names of [Object.prototype]. *)
Definition Object_prototype_keys : list string :=
  [ "constructor"; "__defineGetter__"; "__defineSetter__"; "hasOwnProperty";
    "__lookupGetter__"; "__lookupSetter__"; "isPrototypeOf";
    "propertyIsEnumerable"; "toString"; "valueOf"; "__proto__";
    "toLocaleString" ]%string.

Definition inherited_key (key : string) : bool :=
  existsb (String.eqb key) Object_prototype_keys.

(** An object literal [{ k1: v1, ..., kn: vn }] with numeric members. *)
Definition ObjectLiteral : Type := list (string * float).

Fixpoint own_property (obj : ObjectLiteral) (key : string) : option float :=
  match obj with
  | [] => None
  | (k, v) :: rest => if String.eqb k key then Some v else own_property rest key
  end.

(** [obj[key]]: an own property if there is one, otherwise whatever the
    prototype chain (here [Object.prototype] alone) has under that name,
    otherwise [undefined]. *)
Definition get (obj : ObjectLiteral) (key : string) : Value :=
  match own_property obj key with
  | Some v => Number v
  | None => if inherited_key key then Inherited key else Undefined
  end.

(** The exact integer [n] as a number, for [|n| < 2^53]. *)
Definition of_Z (n : Z) : float :=
  match n with
  | Z0 => PrimFloat.zero
  | Zpos p => SF2Prim (S754_finite false p 0)
  | Zneg p => SF2Prim (S754_finite true p 0)
  end.

(** [Math.round x]: the integral number closest to [x], ties towards
    [+∞]; [NaN], the infinities, the zeros and integral values are returned
    as they are, and a result of zero keeps the sign of [x]. A finite
    non-zero [x] is [± m * 2^e]; for [e < 0] the result is
    [floor (x + 1/2)], computed exactly over the integers. *)
Definition Math_round (x : float) : float :=
  match Prim2SF x with
  | S754_finite s m e =>
      if (0 <=? e)%Z then x
      else
        let d := (2 ^ (- e))%Z in
        let n := if s then Zneg m else Zpos m in
        let r := ((2 * n + d) / (2 * d))%Z in
        if (r =? 0)%Z then (if s then PrimFloat.neg_zero else PrimFloat.zero)
        else of_Z r
  | _ => x
  end.

(** The integer a number denotes, when it is finite and integral. *)
Definition to_Z (x : float) : option Z :=
  match Prim2SF x with
  | S754_zero _ => Some 0%Z
  | S754_finite s m e =>
      let n := if s then Zneg m else Zpos m in
      if (0 <=? e)%Z then Some (n * 2 ^ e)%Z
      else
        let d := (2 ^ (- e))%Z in
        if (n mod d =? 0)%Z then Some (n / d)%Z else None
  | _ => None
  end.

(** [x <= n] for a number [x] and an integer [n], decided exactly on the
    value [x] denotes ([NaN] is below nothing). *)
Definition le_int (x : float) (n : Z) : bool :=
  match Prim2SF x with
  | S754_nan => false
  | S754_infinity s => s
  | S754_zero _ => (0 <=? n)%Z
  | S754_finite s m e =>
      let v := if s then Zneg m else Zpos m in
      if (0 <=? e)%Z then (v * 2 ^ e <=? n)%Z
      else (v <=? n * 2 ^ (- e))%Z
  end.

End JS.

(** ** [ProductFacts] (pwa/src/lib/chromeBuiltInAi.ts) *)

Record ProductFacts : Type := mkProductFacts {
  category : string;
  brand : option string;
  color : option string;
  condition : string;
  uniqueFeatures : list string;
  keywords : list string;
  estimatedPrice : option float;
  notes : option string
}.

(** ** [suggestPrice] (pwa/src/utils/promptBuilders.ts) *)

Definition basePrices : JS.ObjectLiteral :=
  [ ("Electronics", 100); ("Clothing", 25); ("Furniture", 200); ("Books", 10);
    ("Sports", 50); ("Tools", 75); ("Toys", 20) ]%string%float.

Definition conditionMultiplier : JS.ObjectLiteral :=
  [ ("New", 1.0); ("Like New", 0.85); ("Good", 0.65); ("Fair", 0.45);
    ("Poor", 0.25) ]%string%float.

(** The function is declared to return [number | null]; the model returns
    the JavaScript value the body evaluates to. *)
Definition suggestPrice (facts : ProductFacts) : JS.Value :=
  let estimated := JS.of_optional (estimatedPrice facts) in
  if JS.ToBoolean estimated then estimated
  else
    let base := JS.or (JS.get basePrices (category facts)) (JS.Number 50) in
    let multiplier :=
      JS.or (JS.get conditionMultiplier (condition facts)) (JS.Number 0.5) in
    JS.Number (JS.Math_round (JS.mul base multiplier)).

(** A [ProductFacts] literal with the optional members other than
    [estimatedPrice] left out, as the test-suite writes them. *)
Definition facts_of (cat cond : string) (price : option float) : ProductFacts :=
  {| category := cat; brand := None; color := None; condition := cond;
     uniqueFeatures := []; keywords := []; estimatedPrice := price;
     notes := None |}.

(** *** The heuristic as the specification words it *)

Module SpecPrice.

Definition base (cat : string) : float :=
  if String.eqb cat "Electronics" then 100
  else if String.eqb cat "Clothing" then 25
  else if String.eqb cat "Furniture" then 200
  else if String.eqb cat "Books" then 10
  else if String.eqb cat "Sports" then 50
  else if String.eqb cat "Tools" then 75
  else if String.eqb cat "Toys" then 20
  else 50.

Definition multiplier (cond : string) : float :=
  if String.eqb cond "New" then 1.0
  else if String.eqb cond "Like New" then 0.85
  else if String.eqb cond "Good" then 0.65
  else if String.eqb cond "Fair" then 0.45
  else if String.eqb cond "Poor" then 0.25
  else 0.5.

Definition price (cat cond : string) : float :=
  JS.Math_round (PrimFloat.mul (base cat) (multiplier cond)).

End SpecPrice.

(** A number that is an integer [n >= 0]. *)
Definition nonneg_integer (v : JS.Value) : Prop :=
  exists x n, v = JS.Number x /\ JS.to_Z x = Some n /\ (0 <= n)%Z.

(** [a > b] on two results, as the test-suite compares them
    ([expect(a).toBeGreaterThan(b)]). *)
Definition greater (a b : JS.Value) : bool :=
  PrimFloat.ltb (JS.ToNumber b) (JS.ToNumber a).

(** ** The stored records (pwa/src/lib/chromeBuiltInAi.ts, indexeddb.ts) *)

Record ImageData : Type := mkImageData {
  image_data : string;
  image_mimeType : string
}.

Record VoiceData : Type := mkVoiceData {
  voice_data : string;
  voice_mimeType : string;
  transcript : option string
}.

Record ListingContent : Type := mkListingContent {
  title : string;
  description : string;
  content_keywords : list string;
  suggestedPrice : option float
}.

(** Members typed [any] hold plain data that the structured-clone
    algorithm copies. *)
Inductive Any : Type :=
| AnyNull
| AnyBool (b : bool)
| AnyNumber (x : float)
| AnyString (s : string)
| AnyArray (items : list Any)
| AnyObject (members : list (string * Any)).

(** [createdAt] is whatever number the caller put there, [NaN] included;
    the "by-date" index is built from it. [updatedAt] is overwritten by
    every save with a reading of [Date.now()], an integer number of
    milliseconds, and is kept as an integer. *)
Record StoredListing : Type := mkStoredListing {
  id : string;
  createdAt : float;
  updatedAt : Z;
  images : list ImageData;
  voiceNote : option VoiceData;
  content : ListingContent;
  facts : option Any;
  variants : option (list Any);
  videoScript : option Any
}.

(** [listing.updatedAt = t] *)
Definition set_updatedAt (t : Z) (L : StoredListing) : StoredListing :=
  {| id := id L; createdAt := createdAt L; updatedAt := t;
     images := images L; voiceNote := voiceNote L; content := content L;
     facts := facts L; variants := variants L;
     videoScript := videoScript L |}.

(** The invariants the specification gives for a listing:
    [createdAt <= updatedAt] and at most [maxImages] images. *)
Definition maxImages : nat := 5.

Definition valid_listing (L : StoredListing) : Prop :=
  JS.le_int (createdAt L) (updatedAt L) = true /\
  length (images L) <= maxImages.

(** ** The listing store (pwa/src/lib/indexeddb.ts) *)

(** References to the caller's listing objects. *)
Definition loc : Type := positive.

(** The promise an [openDB] call returns, identified by the rank of the
    call among those that returned one. *)
Definition Promise : Type := nat.

Inductive Error : Type :=
| StorageUnavailable  (* the database could not be opened *)
| TypeError.          (* a member of a missing object was accessed *)

Inductive Result (A : Type) : Type :=
| Ok (a : A)
| Throw (e : Error).
Arguments Ok {A} a.
Arguments Throw {A} e.

(** What the browser does when "marketmate-db" is opened (one answer for
    the whole run): [openDB] returns a promise that is fulfilled with the
    database, returns a promise that is rejected, or throws before it
    returns (no [indexedDB] object, or [indexedDB.open] refusing at
    once). *)
Inductive OpenBehaviour : Type :=
| Opens
| Rejects
| ThrowsSync.

(** The state the module runs in.
    - [heap]: the listing objects of the caller, by reference;
    - [dbPromise]: the module variable ([None] is [null]);
    - [opened]: the promises [openDB] has returned so far, one per
      database connection requested, oldest first;
    - [openDB_calls]: how often [openDB] has been called;
    - [idb]: what the browser does when the database is opened;
    - [listings]: the object store "listings", keyed by the key path [id]. *)
Record World : Type := mkWorld {
  heap : gmap loc StoredListing;
  dbPromise : option Promise;
  opened : list Promise;
  openDB_calls : nat;
  idb : OpenBehaviour;
  listings : gmap string StoredListing
}.

(** Whether the database can be opened. *)
Definition idb_available (w : World) : bool :=
  match idb w with
  | Opens => true
  | Rejects => false
  | ThrowsSync => false
  end.

Definition set_heap (h : gmap loc StoredListing) (w : World) : World :=
  {| heap := h; dbPromise := dbPromise w; opened := opened w;
     openDB_calls := openDB_calls w; idb := idb w; listings := listings w |}.

Definition set_listings (m : gmap string StoredListing) (w : World) : World :=
  {| heap := heap w; dbPromise := dbPromise w; opened := opened w;
     openDB_calls := openDB_calls w; idb := idb w; listings := m |}.

(** [openDB("marketmate-db", 1, { upgrade })]: requests a connection and
    returns a new promise for it, unless the request throws at once. *)
Definition openDB (w : World) : Result Promise * World :=
  match idb w with
  | ThrowsSync =>
      (Throw StorageUnavailable,
       {| heap := heap w; dbPromise := dbPromise w; opened := opened w;
          openDB_calls := S (openDB_calls w); idb := idb w;
          listings := listings w |})
  | _ =>
      let p := length (opened w) in
      (Ok p,
       {| heap := heap w; dbPromise := dbPromise w; opened := opened w ++ [p];
          openDB_calls := S (openDB_calls w); idb := idb w;
          listings := listings w |})
  end.

Definition set_dbPromise (p : Promise) (w : World) : World :=
  {| heap := heap w; dbPromise := Some p; opened := opened w;
     openDB_calls := openDB_calls w; idb := idb w; listings := listings w |}.

(** [getDB]: its body has no [await], so it runs to its [return] without
    interruption. When [openDB] throws, the assignment to [dbPromise] does
    not happen and the call is rejected with what was thrown; otherwise
    the promise handed out settles as [dbPromise] does. *)
Definition getDB (w : World) : Result Promise * World :=
  match dbPromise w with
  | None =>
      match openDB w with
      | (Ok p, w1) => (Ok p, set_dbPromise p w1)
      | (Throw e, w1) => (Throw e, w1)
      end
  | Some p => (Ok p, w)
  end.

(** [await p] for a promise of [openDB]: the database handle, or the
    rejection thrown. The handle carries no data of its own. *)
Definition await (p : Promise) (w : World) : Result unit :=
  if idb_available w then Ok tt else Throw StorageUnavailable.

(** A computation started in a world: its completion and the world it
    leaves. *)
Definition M (A : Type) : Type := World -> Result A * World.

(** What each exported function does once [await getDB()] has returned
    control, given the promise [getDB] produced. *)

Definition saveListing_body (now : Z) (listing : loc) (p : Promise) : M unit :=
  fun w =>
    match await p w with
    | Throw e => (Throw e, w)
    | Ok _ =>
        match heap w !! listing with
        | None => (Throw TypeError, w)
        | Some L =>
            (* listing.updatedAt = Date.now() *)
            let L' := set_updatedAt now L in
            let w1 := set_heap (<[listing := L']> (heap w)) w in
            (* db.put("listings", listing): a copy goes under its id *)
            (Ok tt, set_listings (<[id L' := L']> (listings w1)) w1)
        end
    end.

Definition getListing_body (key : string) (p : Promise)
  : M (option StoredListing) :=
  fun w =>
    match await p w with
    | Throw e => (Throw e, w)
    | Ok _ => (Ok (listings w !! key), w)
    end.

(** A record enters the index "by-date" when its [createdAt] is a valid
    key; of the numbers, [NaN] alone is none. *)
Definition indexed (L : StoredListing) : Prop :=
  PrimFloat.is_nan (createdAt L) = false.

(** IndexedDB's comparison of two number keys. *)
Definition compare_numbers (x y : float) : comparison :=
  if PrimFloat.ltb y x then Gt
  else if PrimFloat.ltb x y then Lt
  else Eq.

(** The index lists its records by ascending [createdAt], and by ascending
    primary key among equal [createdAt]. (String keys are compared here
    byte by byte; IndexedDB compares UTF-16 code units, which orders the
    same way unless a character beyond U+FFFF meets one from U+E000 on.) *)
Definition by_date (a b : StoredListing) : Prop :=
  match compare_numbers (createdAt a) (createdAt b) with
  | Lt => True
  | Eq => String.leb (id a) (id b) = true
  | Gt => False
  end.

#[global] Instance by_date_dec (a b : StoredListing) : Decision (by_date a b).
Proof. unfold by_date. destruct (compare_numbers _ _); apply _. Defined.

Definition index_by_date (m : gmap string StoredListing) : list StoredListing :=
  merge_sort by_date (filter indexed (snd <$> map_to_list m)).

Definition getAllListings_body (p : Promise) : M (list StoredListing) :=
  fun w =>
    match await p w with
    | Throw e => (Throw e, w)
    | Ok _ => (Ok (rev (index_by_date (listings w))), w)
    end.

Definition deleteListing_body (key : string) (p : Promise) : M unit :=
  fun w =>
    match await p w with
    | Throw e => (Throw e, w)
    | Ok _ => (Ok tt, set_listings (delete key (listings w)) w)
    end.

Definition clearAllListings_body (p : Promise) : M unit :=
  fun w =>
    match await p w with
    | Throw e => (Throw e, w)
    | Ok _ => (Ok tt, set_listings ∅ w)
    end.

(** [const db = await getDB(); ...]: a rejected [getDB] ends the call
    before anything else is done. *)
Definition awaiting {A : Type} (got : Result Promise) (body : Promise -> M A)
  : M A :=
  fun w =>
    match got with
    | Throw e => (Throw e, w)
    | Ok p => body p w
    end.

(** The exported functions, each awaited by its caller before the next
    call is made. [now] is what [Date.now()] returns during the call. *)

Definition saveListing (now : Z) (listing : loc) : M unit :=
  fun w =>
    let '(got, w1) := getDB w in awaiting got (saveListing_body now listing) w1.

Definition getListing (key : string) : M (option StoredListing) :=
  fun w => let '(got, w1) := getDB w in awaiting got (getListing_body key) w1.

Definition getAllListings : M (list StoredListing) :=
  fun w => let '(got, w1) := getDB w in awaiting got getAllListings_body w1.

Definition deleteListing (key : string) : M unit :=
  fun w => let '(got, w1) := getDB w in awaiting got (deleteListing_body key) w1.

Definition clearAllListings : M unit :=
  fun w => let '(got, w1) := getDB w in awaiting got clearAllListings_body w1.

(** *** Calls in flight

    A caller that does not await one call before making the next has
    several calls suspended at [await getDB()] at once. Each call runs
    [getDB] when it is invoked and its body when it is resumed; calls are
    resumed in any order. *)

Inductive Call : Type :=
| CallSave (listing : loc)
| CallGet (key : string)
| CallGetAll
| CallDelete (key : string)
| CallClear.

(** A suspended call and what its [getDB()] returned. *)
Record Task : Type := mkTask {
  task_call : Call;
  task_awaited : Result Promise
}.

(** [Resume k now]: the [k]-th suspended call continues, at clock reading
    [now]. *)
Inductive Event : Type :=
| Invoke (c : Call)
| Resume (k : nat) (now : Z).

(** [handed] records what each [getDB] call returned, in call order. *)
Record Run : Type := mkRun {
  world : World;
  suspended : list Task;
  handed : list (Result Promise)
}.

Definition resume (t : Task) (now : Z) (w : World) : World :=
  match task_call t with
  | CallSave listing =>
      snd (awaiting (task_awaited t) (saveListing_body now listing) w)
  | CallGet key => snd (awaiting (task_awaited t) (getListing_body key) w)
  | CallGetAll => snd (awaiting (task_awaited t) getAllListings_body w)
  | CallDelete key => snd (awaiting (task_awaited t) (deleteListing_body key) w)
  | CallClear => snd (awaiting (task_awaited t) clearAllListings_body w)
  end.

Definition step (r : Run) (e : Event) : Run :=
  match e with
  | Invoke c =>
      let '(got, w1) := getDB (world r) in
      {| world := w1; suspended := suspended r ++ [mkTask c got];
         handed := handed r ++ [got] |}
  | Resume k now =>
      match suspended r !! k with
      | Some t =>
          {| world := resume t now (world r);
             suspended := delete k (suspended r); handed := handed r |}
      | None => r
      end
  end.

Definition run_events (events : list Event) (r : Run) : Run :=
  fold_left step events r.

(** A process that has just loaded the module: [dbPromise] is [null] and
    [openDB] has not been called. *)
Definition fresh_process (h : gmap loc StoredListing) (browser : OpenBehaviour)
    (m : gmap string StoredListing) : Run :=
  {| world := {| heap := h; dbPromise := None; opened := [];
                 openDB_calls := 0; idb := browser; listings := m |};
     suspended := []; handed := [] |}.

(** The records the object store holds. *)
Definition stored (m : gmap string StoredListing) : list StoredListing :=
  snd <$> map_to_list m.

(** [a] is not older than [b]. *)
Definition newer_or_same (a b : StoredListing) : Prop :=
  PrimFloat.ltb (createdAt a) (createdAt b) = false.

(** Every record is followed by one that is not newer. *)
Definition newest_first (l : list StoredListing) : Prop :=
  Sorted newer_or_same l.

(** What every run keeps true. Where [openDB] returns a promise: before
    the first [getDB] call nothing has been opened or handed out; from then
    on [dbPromise] holds the promise of the one [openDB] call, and that
    promise is all [getDB] has ever returned. Where [openDB] throws:
    [dbPromise] stays [null], no promise exists, and every [getDB] call
    has called [openDB] and been rejected. *)
Definition one_handle (r : Run) : Prop :=
  match idb (world r) with
  | ThrowsSync =>
      dbPromise (world r) = None /\ opened (world r) = [] /\
      Forall (eq (Throw StorageUnavailable)) (handed r) /\
      openDB_calls (world r) = length (handed r)
  | _ =>
      match dbPromise (world r) with
      | None =>
          opened (world r) = [] /\ handed r = [] /\
          openDB_calls (world r) = 0
      | Some p =>
          opened (world r) = [p] /\ head (handed r) = Some (Ok p) /\
          Forall (eq (Ok p)) (handed r) /\ openDB_calls (world r) = 1
      end
  end.

(** *** Sample data, in the shape the test-suite uses *)

Definition sample_listing (key : string) (created : float) (updated : Z)
  : StoredListing :=
  {| id := key; createdAt := created; updatedAt := updated;
     images := []; voiceNote := None;
     content := {| title := "Test"; description := "Test description";
                   content_keywords := ["test"%string];
                   suggestedPrice := None |};
     facts := None; variants := None; videoScript := None |}.

(** A listing whose [updatedAt] is ahead of the clock it is saved at, as
    the test-suite builds them ([updatedAt: Date.now() + 1000]). *)
Definition listing_ahead : StoredListing :=
  sample_listing "listing_5000_k3x9q2m1z" 5000 5000.

Definition world_ahead : World :=
  {| heap := {[ 1%positive := listing_ahead ]}; dbPromise := None;
     opened := []; openDB_calls := 0; idb := Opens; listings := ∅ |}.

Definition listing_1000 : StoredListing := sample_listing "listing_a" 1000 1000.
Definition listing_2000 : StoredListing := sample_listing "listing_b" 2000 2000.
Definition listing_3000 : StoredListing := sample_listing "listing_c" 3000 3000.

Definition world_three : World :=
  {| heap := {[ 1%positive := listing_1000; 2%positive := listing_2000;
                3%positive := listing_3000 ]};
     dbPromise := None; opened := []; openDB_calls := 0; idb := Opens;
     listings := {[ "stale"%string := listing_ahead ]} |}.

(** The same caller in a browser that does not let the database be
    opened. *)
Definition world_unavailable : World :=
  {| heap := heap world_three; dbPromise := None; opened := [];
     openDB_calls := 0; idb := Rejects; listings := listings world_three |}.



(** ** The remaining functions of the store module, and the callers *)

(** Every record sits under its own [id], as the key path prescribes. *)
Definition keyed (m : gmap string StoredListing) : Prop :=
  forall (key : string) (L : StoredListing), m !! key = Some L -> id L = key.

(** *** [generateListingId] (pwa/src/lib/indexeddb.ts) *)

(** [`${n}`] for an integer [n], the decimal numeral (what JavaScript prints
    for integers below [10^21], the clock readings among them). *)
Definition Number_toString (n : Z) : string :=
  NilZero.string_of_int (Z.to_int n).

(** [s.substr(start, length)] *)
Definition substr (start length : nat) (s : string) : string :=
  String.substring start length s.

(** [now] is the reading of [Date.now()], [random36] the string
    [Math.random().toString(36)] (["0.4fzyo82mvyr"], say). *)
Definition generateListingId (now : Z) (random36 : string) : string :=
  ("listing_" ++ Number_toString now ++ "_" ++ substr 2 9 random36)%string.

(** *** [fileToImageData] (pwa/src/lib/indexeddb.ts) *)

(** What the [FileReader] does with a file: it loads a string (the data
    URL), loads something that is no string, or fails. *)
Inductive ReadOutcome : Type :=
| Loaded (result : string)
| LoadedOther
| ReadError.

Record File : Type := mkFile {
  file_type : string;
  file_read : ReadOutcome
}.

(** [None]: the promise is rejected. *)
Definition fileToImageData (file : File) : option ImageData :=
  match file_read file with
  | Loaded result => Some {| image_data := result; image_mimeType := file_type file |}
  | LoadedOther => None
  | ReadError => None
  end.

(** *** [ImageUploader] (pwa/src/components/ImageUploader.tsx) *)

(** [l.slice(0, stop)] for an integer [stop]: a negative [stop] counts from
    the end of [l]. *)
Definition slice0 {A : Type} (stop : Z) (l : list A) : list A :=
  let len := Z.of_nat (length l) in
  let final := if (stop <? 0)%Z then Z.max (len + stop) 0 else Z.min stop len in
  take (Z.to_nat final) l.

(** [handleFileSelect]: the list handed to [onImagesChange], or [None] when
    the handler returns without calling it. A file whose conversion is
    rejected is logged and skipped. *)
Definition handleFileSelect (images : list ImageData) (maxImages : Z)
    (files : option (list File)) : option (list ImageData) :=
  match files with
  | None => None
  | Some files =>
      let imageFiles :=
        List.filter (fun file => String.prefix "image/" (file_type file)) files in
      let remainingSlots := (maxImages - Z.of_nat (length images))%Z in
      let filesToProcess := slice0 remainingSlots imageFiles in
      let newImages := omap fileToImageData filesToProcess in
      Some (images ++ newImages)
  end.

(** [l.filter((_, i) => keep(i))], the indices counted from [i]. *)
Fixpoint filter_index {A : Type} (keep : nat -> bool) (i : nat) (l : list A)
  : list A :=
  match l with
  | [] => []
  | x :: rest =>
      if keep i then x :: filter_index keep (S i) rest
      else filter_index keep (S i) rest
  end.

(** [removeImage]: the list handed to [onImagesChange]. *)
Definition removeImage (images : list ImageData) (index : nat) : list ImageData :=
  filter_index (fun i => negb (Nat.eqb i index)) 0 images.

(** *** [handleGenerate] (pwa/src/pages/Editor.tsx), the price it sets

    [const price = suggestPrice(extractedFacts);
     listingContent.suggestedPrice = price || listingContent.suggestedPrice;] *)
Definition handleGenerate_price (extractedFacts : ProductFacts)
    (listingContent : ListingContent) : JS.Value :=
  let price := suggestPrice extractedFacts in
  JS.or price (JS.of_optional (suggestedPrice listingContent)).

(** An integer price between two bounds. *)
Definition integer_between (lo hi : Z) (v : JS.Value) : Prop :=
  exists x n, v = JS.Number x /\ JS.to_Z x = Some n /\ (lo <= n <= hi)%Z.


(** Every stored record is in the index "by-date". *)
Definition all_indexed (m : gmap string StoredListing) : Prop :=
  forall (key : string) (L : StoredListing), m !! key = Some L -> indexed L.

(** A store that holds one record, under its [id]. *)
Definition world_keyed : World :=
  {| heap := {[ 1%positive := listing_1000 ]}; dbPromise := None;
     opened := []; openDB_calls := 0; idb := Opens;
     listings := {[ id listing_ahead := listing_ahead ]} |}.

(** * Properties *)

(** ** The price heuristic *)

Lemma number_neq (x y : float) :
  Prim2SF x <> Prim2SF y -> JS.Number x <> JS.Number y.
Proof. intros Hne Heq. injection Heq as ->. by apply Hne. Qed.

Lemma or_basePrices (cat : string) :
  JS.inherited_key cat = false ->
  JS.or (JS.get basePrices cat) (JS.Number 50) = JS.Number (SpecPrice.base cat).
Proof.
  intros Hcat. unfold JS.get, SpecPrice.base, basePrices, JS.own_property.
  rewrite !(String.eqb_sym cat).
  repeat (destruct (String.eqb _ cat); [reflexivity|]).
  rewrite Hcat. reflexivity.
Qed.

Lemma or_conditionMultiplier (cond : string) :
  JS.inherited_key cond = false ->
  JS.or (JS.get conditionMultiplier cond) (JS.Number 0.5)
  = JS.Number (SpecPrice.multiplier cond).
Proof.
  intros Hcond.
  unfold JS.get, SpecPrice.multiplier, conditionMultiplier, JS.own_property.
  rewrite !(String.eqb_sym cond).
  repeat (destruct (String.eqb _ cond); [reflexivity|]).
  rewrite Hcond. reflexivity.
Qed.

(** Away from the names [Object.prototype] defines, the code computes the
    heuristic of the specification. *)
Lemma suggestPrice_heuristic (facts : ProductFacts) :
  estimatedPrice facts = None ->
  JS.inherited_key (category facts) = false ->
  JS.inherited_key (condition facts) = false ->
  suggestPrice facts
  = JS.Number (SpecPrice.price (category facts) (condition facts)).
Proof.
  intros Hnone Hcat Hcond. unfold suggestPrice. rewrite Hnone. cbn.
  rewrite (or_basePrices _ Hcat), (or_conditionMultiplier _ Hcond).
  reflexivity.
Qed.

Lemma SpecPrice_price_nonneg_integer (cat cond : string) :
  nonneg_integer (JS.Number (SpecPrice.price cat cond)).
Proof.
  unfold nonneg_integer, SpecPrice.price, SpecPrice.base, SpecPrice.multiplier.
  repeat (destruct (String.eqb cat _));
    repeat (destruct (String.eqb cond _));
    (eexists _, _; split; [reflexivity|];
     split; [vm_compute; reflexivity | lia]).
Qed.

Lemma SpecPrice_new_above_poor (cat : string) :
  greater (JS.Number (SpecPrice.price cat "New"))
          (JS.Number (SpecPrice.price cat "Poor")) = true.
Proof.
  unfold greater, SpecPrice.price, SpecPrice.base.
  repeat (destruct (String.eqb cat _)); vm_compute; reflexivity.
Qed.

Lemma suggestPrice_heuristic_nonneg_integer (facts : ProductFacts) :
  estimatedPrice facts = None ->
  JS.inherited_key (category facts) = false ->
  JS.inherited_key (condition facts) = false ->
  nonneg_integer (suggestPrice facts).
Proof.
  intros Hnone Hcat Hcond. rewrite suggestPrice_heuristic by done.
  apply SpecPrice_price_nonneg_integer.
Qed.

Lemma suggestPrice_heuristic_new_above_poor (cat : string) :
  JS.inherited_key cat = false ->
  greater (suggestPrice (facts_of cat "New" None))
          (suggestPrice (facts_of cat "Poor" None)) = true.
Proof.
  intros Hcat. rewrite !suggestPrice_heuristic by done.
  apply SpecPrice_new_above_poor.
Qed.

Example suggestPrice_Books_Good :
  suggestPrice (facts_of "Books" "Good" None) = JS.Number 7.
Proof. vm_compute. reflexivity. Qed.

Example suggestPrice_Books_Good_estimate_zero :
  suggestPrice (facts_of "Books" "Good" (Some 0%float)) = JS.Number 7.
Proof. vm_compute. reflexivity. Qed.

(** An estimate of zero (or [NaN]) counts as no estimate. *)
Lemma suggestPrice_falsy_estimate (facts : ProductFacts) (p : float) :
  estimatedPrice facts = Some p ->
  JS.truthy_number p = false ->
  suggestPrice facts
  = suggestPrice (facts_of (category facts) (condition facts) None).
Proof.
  intros Hp Hfalsy. unfold suggestPrice. rewrite Hp. cbn. rewrite Hfalsy.
  reflexivity.
Qed.

(** C1, as stated, fails: the facts [{category: "Books", condition: "Good",
    estimatedPrice: 0}] carry an estimated price, and [suggestPrice]
    answers 7 instead of that price. *)
Lemma suggestPrice_estimate_not_always_returned :
  ~ (forall (facts : ProductFacts) (p : float),
       estimatedPrice facts = Some p -> suggestPrice facts = JS.Number p).
Proof.
  intros Hall.
  specialize (Hall (facts_of "Books" "Good" (Some 0%float)) 0%float eq_refl).
  rewrite suggestPrice_Books_Good_estimate_zero in Hall.
  revert Hall. apply number_neq. vm_compute. discriminate.
Qed.

(** C1 (amended): whenever the estimated price is present and truthy (a
    number other than [+0], [-0] and [NaN]), [suggestPrice] returns it
    unchanged, whatever the category and the condition are. *)
Theorem suggestPrice_returns_estimate (facts : ProductFacts) (p : float) :
  estimatedPrice facts = Some p ->
  JS.truthy_number p = true ->
  suggestPrice facts = JS.Number p.
Proof.
  intros Hp Htruthy. unfold suggestPrice. rewrite Hp. cbn.
  rewrite Htruthy. reflexivity.
Qed.

Lemma suggestPrice_returns_estimate_witness :
  suggestPrice (facts_of "Electronics" "Good" (Some 100%float))
  = JS.Number 100.
Proof.
  apply (suggestPrice_returns_estimate
           (facts_of "Electronics" "Good" (Some 100%float)) 100%float);
    reflexivity.
Defined.

(** C2: at the category ["constructor"], a name every object inherits from
    [Object.prototype], no estimated price being supplied, the table lookup
    yields the inherited function instead of falling back to 50, and the
    result is [NaN], not the [round (50 * 0.65) = 33] of the heuristic. *)
Theorem suggestPrice_inherited_category :
  let facts := facts_of "constructor" "Good" None in
  suggestPrice facts = JS.Number JS.NaN /\
  SpecPrice.price (category facts) (condition facts) = 33%float /\
  suggestPrice facts
  <> JS.Number (SpecPrice.price (category facts) (condition facts)).
Proof.
  cbv zeta. split; [vm_compute; reflexivity|].
  split; [vm_compute; reflexivity|].
  apply number_neq. vm_compute. discriminate.
Qed.

(** C3: at the same facts the result, [NaN], is no integer. *)
Theorem suggestPrice_inherited_category_not_integer :
  ~ nonneg_integer (suggestPrice (facts_of "constructor" "Good" None)).
Proof.
  intros (x & n & Hx & Hn & _).
  assert (Hnan : suggestPrice (facts_of "constructor" "Good" None)
                 = JS.Number JS.NaN) by (vm_compute; reflexivity).
  rewrite Hnan in Hx. injection Hx as <-.
  vm_compute in Hn. discriminate.
Qed.

(** C4: at the category ["constructor"] both prices are [NaN], and the
    price for "New" is not greater than the price for "Poor". *)
Theorem suggestPrice_inherited_category_new_poor :
  suggestPrice (facts_of "constructor" "New" None) = JS.Number JS.NaN /\
  suggestPrice (facts_of "constructor" "Poor" None) = JS.Number JS.NaN /\
  greater (suggestPrice (facts_of "constructor" "New" None))
          (suggestPrice (facts_of "constructor" "Poor" None)) = false.
Proof. repeat split; vm_compute; reflexivity. Qed.

(** C10: [suggestPrice] returns a number for every input, never [null]
    (nor [undefined]). *)
Theorem suggestPrice_returns_number (facts : ProductFacts) :
  exists x : float, suggestPrice facts = JS.Number x.
Proof.
  unfold suggestPrice.
  destruct (estimatedPrice facts) as [p|]; cbn.
  - destruct (JS.truthy_number p); eauto.
  - eauto.
Qed.

(** ** The listing store *)

(** [getDB] touches nothing but [dbPromise] and the record of [openDB]
    calls. *)
Lemma getDB_frame (w : World) :
  heap (snd (getDB w)) = heap w /\
  listings (snd (getDB w)) = listings w /\
  idb_available (snd (getDB w)) = idb_available w.
Proof.
  unfold getDB, openDB, idb_available.
  destruct (dbPromise w); [by cbn|]. destruct (idb w); cbn; auto.
Qed.

Lemma getDB_idb (w : World) : idb (snd (getDB w)) = idb w.
Proof.
  unfold getDB, openDB.
  destruct (dbPromise w); [by cbn|]. destruct (idb w); cbn; auto.
Qed.

(** Where the database can be opened, [getDB] hands out a promise. *)
Lemma getDB_available (w : World) :
  idb_available w = true -> exists p, fst (getDB w) = Ok p.
Proof.
  unfold getDB, openDB, idb_available.
  destruct (dbPromise w); [by eauto|]. destruct (idb w); cbn; by eauto.
Qed.

(** The one thing [getDB] is rejected with is the failure to open. *)
Lemma getDB_throws (w : World) (e : Error) :
  fst (getDB w) = Throw e -> e = StorageUnavailable.
Proof.
  unfold getDB, openDB.
  destruct (dbPromise w); [discriminate|].
  destruct (idb w); cbn; congruence.
Qed.

Ltac after_getDB w got w1 :=
  let E := fresh "E" in
  let Hh := fresh "Hheap" in
  let Hl := fresh "Hlistings" in
  let Ha := fresh "Havailable" in
  let Ht := fresh "Hthrows" in
  destruct (getDB_frame w) as (Hh & Hl & Ha);
  pose proof (getDB_throws w) as Ht;
  destruct (getDB w) as [got w1] eqn:E; cbn [fst snd] in Hh, Hl, Ha, Ht.

Ltac after_getDB_available w Hav p w1 :=
  let E := fresh "E" in
  let Hh := fresh "Hheap" in
  let Hl := fresh "Hlistings" in
  let Ha := fresh "Havailable" in
  let Hp := fresh "Hp" in
  destruct (getDB_frame w) as (Hh & Hl & Ha);
  destruct (getDB_available w Hav) as [p Hp];
  destruct (getDB w) as [? w1] eqn:E; cbn [fst snd] in Hh, Hl, Ha, Hp;
  subst; cbn [awaiting].

Lemma saveListing_available (w : World) (now : Z) (l : loc) (L : StoredListing) :
  heap w !! l = Some L ->
  idb_available w = true ->
  exists w1,
    saveListing now l w = (Ok tt, w1) /\
    heap w1 = <[l := set_updatedAt now L]> (heap w) /\
    listings w1 = <[id L := set_updatedAt now L]> (listings w) /\
    idb_available w1 = true.
Proof.
  intros Hl Hav. unfold saveListing. after_getDB_available w Hav p w1.
  unfold saveListing_body, await. rewrite Havailable, Hav. cbn beta iota.
  rewrite Hheap, Hl.
  eexists. split; [reflexivity|]. cbn [snd heap listings set_listings set_heap].
  rewrite Hlistings. repeat split; try done. exact (eq_trans Havailable Hav).
Qed.

Lemma saveListing_unavailable (w : World) (now : Z) (l : loc) :
  idb_available w = false ->
  fst (saveListing now l w) = Throw StorageUnavailable /\
  heap (snd (saveListing now l w)) = heap w /\
  listings (snd (saveListing now l w)) = listings w.
Proof.
  intros Hav. unfold saveListing. after_getDB w got w1.
  destruct got as [p|e]; cbn [awaiting].
  - unfold saveListing_body, await. rewrite Havailable, Hav. cbn. auto.
  - rewrite (Hthrows e eq_refl). cbn. auto.
Qed.

Lemma getListing_available (w : World) (key : string) :
  idb_available w = true ->
  fst (getListing key w) = Ok (listings w !! key) /\
  heap (snd (getListing key w)) = heap w /\
  listings (snd (getListing key w)) = listings w.
Proof.
  intros Hav. unfold getListing. after_getDB_available w Hav p w1.
  unfold getListing_body, await. rewrite Havailable, Hav. cbn.
  rewrite Hlistings. auto.
Qed.

Lemma deleteListing_available (w : World) (key : string) :
  idb_available w = true ->
  exists w1,
    deleteListing key w = (Ok tt, w1) /\
    heap w1 = heap w /\
    listings w1 = delete key (listings w) /\
    idb_available w1 = true.
Proof.
  intros Hav. unfold deleteListing. after_getDB_available w Hav p w1.
  unfold deleteListing_body, await. rewrite Havailable, Hav.
  eexists. split; [reflexivity|]. cbn [snd heap listings set_listings set_heap].
  rewrite Hlistings. repeat split; try done. exact (eq_trans Havailable Hav).
Qed.

Lemma clearAllListings_available (w : World) :
  idb_available w = true ->
  exists w1,
    clearAllListings w = (Ok tt, w1) /\
    heap w1 = heap w /\
    listings w1 = ∅ /\
    idb_available w1 = true.
Proof.
  intros Hav. unfold clearAllListings. after_getDB_available w Hav p w1.
  unfold clearAllListings_body, await. rewrite Havailable, Hav.
  eexists. split; [reflexivity|]. cbn [snd heap listings set_listings set_heap].
  repeat split; try done. exact (eq_trans Havailable Hav).
Qed.

Lemma getAllListings_available (w : World) :
  idb_available w = true ->
  fst (getAllListings w) = Ok (rev (index_by_date (listings w))).
Proof.
  intros Hav. unfold getAllListings. after_getDB_available w Hav p w1.
  unfold getAllListings_body, await. rewrite Havailable, Hav. cbn.
  rewrite Hlistings. reflexivity.
Qed.

Lemma save_then_get_record (w : World) (now : Z) (l : loc) (L : StoredListing) :
  heap w !! l = Some L ->
  idb_available w = true ->
  fst (saveListing now l w) = Ok tt /\
  fst (getListing (id L) (snd (saveListing now l w)))
  = Ok (Some (set_updatedAt now L)).
Proof.
  intros Hl Hav.
  destruct (saveListing_available w now l L Hl Hav) as (w1 & -> & _ & Hm & Hav1).
  cbn [fst snd]. split; [reflexivity|].
  destruct (getListing_available w1 (id L) Hav1) as (-> & _ & _).
  rewrite Hm, lookup_insert_eq. reflexivity.
Qed.

Lemma listing_ahead_valid : valid_listing listing_ahead.
Proof. split; [vm_compute; reflexivity | cbn; lia]. Qed.

(** C5, as stated, fails: [listing_ahead] is valid, it is saved at clock
    reading 4000, and the record read back has [updatedAt = 4000], below the
    5000 it had before the save. *)
Lemma save_then_get_updatedAt_may_decrease :
  ~ (forall (w : World) (now : Z) (l : loc) (L : StoredListing),
       valid_listing L ->
       heap w !! l = Some L ->
       idb_available w = true ->
       exists L',
         fst (getListing (id L) (snd (saveListing now l w))) = Ok (Some L') /\
         L' = set_updatedAt (updatedAt L') L /\
         (updatedAt L <= updatedAt L')%Z).
Proof.
  intros Hall.
  destruct (Hall world_ahead 4000%Z 1%positive listing_ahead)
    as (L' & Hget & _ & Hle).
  - exact listing_ahead_valid.
  - reflexivity.
  - reflexivity.
  - destruct (save_then_get_record world_ahead 4000%Z 1%positive listing_ahead
                eq_refl eq_refl) as (_ & Hgot).
    rewrite Hgot in Hget. injection Hget as <-. cbn in Hle. lia.
Qed.

(** C5 (amended): with the database available, [saveListing(L)] followed
    by [getListing(L.id)] returns a record equal to [L] in every field
    except [updatedAt], which is the clock reading [Date.now()] taken by the
    save; it is at least the [updatedAt] that [L] had before whenever that
    was not ahead of the clock. *)
Theorem save_then_get (w : World) (now : Z) (l : loc) (L : StoredListing) :
  heap w !! l = Some L ->
  idb_available w = true ->
  fst (saveListing now l w) = Ok tt /\
  fst (getListing (id L) (snd (saveListing now l w)))
  = Ok (Some (set_updatedAt now L)) /\
  updatedAt (set_updatedAt now L) = now /\
  ((updatedAt L <= now)%Z ->
   (updatedAt L <= updatedAt (set_updatedAt now L))%Z).
Proof.
  intros Hl Hav.
  destruct (save_then_get_record w now l L Hl Hav) as (Hsave & Hget).
  repeat split; auto.
Qed.

Lemma save_then_get_witness :
  fst (getListing (id listing_ahead)
         (snd (saveListing 6000%Z 1%positive world_ahead)))
  = Ok (Some (set_updatedAt 6000%Z listing_ahead)).
Proof.
  apply (save_then_get world_ahead 6000%Z 1%positive listing_ahead);
    reflexivity.
Defined.

(** C6: with the database available, [deleteListing(id)] completes for
    every [id], stored or not, leaving the store as it was when [id] is
    absent, and [getListing(id)] afterwards completes with [undefined]. *)
Theorem delete_then_get (w : World) (key : string) :
  idb_available w = true ->
  fst (deleteListing key w) = Ok tt /\
  fst (getListing key (snd (deleteListing key w))) = Ok None /\
  (listings w !! key = None ->
   listings (snd (deleteListing key w)) = listings w).
Proof.
  intros Hav.
  destruct (deleteListing_available w key Hav) as (w1 & -> & _ & Hm & Hav1).
  cbn [fst snd]. split; [reflexivity|].
  destruct (getListing_available w1 key Hav1) as (-> & _ & _).
  rewrite Hm, lookup_delete_eq. split; [reflexivity|].
  intros Hnone. by apply delete_id.
Qed.

Lemma delete_then_get_witness :
  fst (getListing "never-saved"
         (snd (deleteListing "never-saved" world_ahead))) = Ok None.
Proof. apply (delete_then_get world_ahead "never-saved"). reflexivity. Defined.

(** C9: [saveListing] writes to the object it is given. Once the database
    is available, the caller's object holds the clock reading of the save
    in [updatedAt] and has every other field as it was, and no other
    object of the caller changes; when the database cannot be opened,
    nothing is written at all. *)
Theorem saveListing_mutates_argument
    (w : World) (now : Z) (l : loc) (L : StoredListing) :
  heap w !! l = Some L ->
  (idb_available w = true ->
   (exists L',
      heap (snd (saveListing now l w)) !! l = Some L' /\
      updatedAt L' = now /\
      id L' = id L /\ createdAt L' = createdAt L /\
      images L' = images L /\ voiceNote L' = voiceNote L /\
      content L' = content L /\ facts L' = facts L /\
      variants L' = variants L /\ videoScript L' = videoScript L) /\
   (forall other : loc,
      other <> l ->
      heap (snd (saveListing now l w)) !! other = heap w !! other)) /\
  (idb_available w = false ->
   heap (snd (saveListing now l w)) = heap w).
Proof.
  intros Hl. split; intros Hav.
  - destruct (saveListing_available w now l L Hl Hav) as (w1 & -> & Hh & _).
    cbn [snd]. rewrite Hh. split.
    + exists (set_updatedAt now L). rewrite lookup_insert_eq.
      cbn. repeat split; reflexivity.
    + intros other Hother. by rewrite lookup_insert_ne.
  - by destruct (saveListing_unavailable w now l Hav) as (_ & Hh & _).
Qed.

Lemma saveListing_mutates_argument_witness :
  exists L',
    heap (snd (saveListing 6000%Z 1%positive world_ahead)) !! 1%positive
    = Some L' /\
    updatedAt L' = 6000%Z /\
    id L' = id listing_ahead /\ createdAt L' = createdAt listing_ahead /\
    images L' = images listing_ahead /\
    voiceNote L' = voiceNote listing_ahead /\
    content L' = content listing_ahead /\ facts L' = facts listing_ahead /\
    variants L' = variants listing_ahead /\
    videoScript L' = videoScript listing_ahead.
Proof.
  apply (proj1 (saveListing_mutates_argument world_ahead 6000%Z 1%positive
                  listing_ahead eq_refl)).
  reflexivity.
Defined.

(** *** [getAllListings] *)

Lemma index_by_date_Permutation (m : gmap string StoredListing) :
  rev (index_by_date m) ≡ₚ filter indexed (stored m).
Proof.
  rewrite <- Permutation_rev. apply merge_sort_Permutation.
Qed.

Lemma elem_of_stored (m : gmap string StoredListing) (L : StoredListing) :
  L ∈ stored m <-> exists key, m !! key = Some L.
Proof.
  unfold stored. rewrite list_elem_of_fmap. split.
  - intros ([key L'] & -> & Hin). exists key. by apply elem_of_map_to_list.
  - intros (key & Hlook). exists (key, L). split; [done|].
    by apply elem_of_map_to_list.
Qed.

Lemma filter_indexed_all (m : gmap string StoredListing) :
  all_indexed m -> filter indexed (stored m) = stored m.
Proof.
  intros Hall.
  assert (Forall indexed (stored m)) as Hforall.
  { apply Forall_forall. intros L HL.
    apply elem_of_stored in HL as (key & Hlook). by apply (Hall key). }
  induction Hforall as [|L l HL _ IH]; [done|].
  by rewrite filter_cons_True, IH.
Qed.

(** What the code does get right: the records whose [createdAt] is a
    valid key are all returned, each as often as it is stored. *)
Lemma getAllListings_indexed_records (w : World) :
  idb_available w = true ->
  exists all,
    fst (getAllListings w) = Ok all /\
    all ≡ₚ filter indexed (stored (listings w)).
Proof.
  intros Hav. exists (rev (index_by_date (listings w))).
  split; [by apply getAllListings_available|apply index_by_date_Permutation].
Qed.

(** Saved into a cleared store, the three listings with [createdAt] 1000,
    2000 and 3000 come back newest first. *)
Example getAllListings_three_saves :
  fst (getAllListings
         (snd (saveListing 7003%Z 3%positive
            (snd (saveListing 7002%Z 2%positive
               (snd (saveListing 7001%Z 1%positive
                  (snd (clearAllListings world_three)))))))))
  = Ok [set_updatedAt 7003%Z listing_3000; set_updatedAt 7002%Z listing_2000;
        set_updatedAt 7001%Z listing_1000].
Proof. vm_compute. reflexivity. Qed.


(** *** [getDB] *)

Lemma awaiting_frame {A : Type} (got : Result Promise) (body : Promise -> M A)
    (w : World) :
  (forall p, dbPromise (snd (body p w)) = dbPromise w /\
             opened (snd (body p w)) = opened w /\
             openDB_calls (snd (body p w)) = openDB_calls w /\
             idb (snd (body p w)) = idb w) ->
  dbPromise (snd (awaiting got body w)) = dbPromise w /\
  opened (snd (awaiting got body w)) = opened w /\
  openDB_calls (snd (awaiting got body w)) = openDB_calls w /\
  idb (snd (awaiting got body w)) = idb w.
Proof. intros Hbody. destruct got as [p|e]; cbn; auto. Qed.

Lemma resume_frame (t : Task) (now : Z) (w : World) :
  dbPromise (resume t now w) = dbPromise w /\
  opened (resume t now w) = opened w /\
  openDB_calls (resume t now w) = openDB_calls w /\
  idb (resume t now w) = idb w.
Proof.
  unfold resume.
  destruct (task_call t); apply awaiting_frame; intros p;
    unfold saveListing_body, getListing_body, getAllListings_body,
      deleteListing_body, clearAllListings_body;
    destruct (await p w); cbn; auto.
  destruct (heap w !! listing); cbn; auto.
Qed.

(** An awaited call is an invocation resumed at once. *)
Lemma invoke_resume_saveListing (r : Run) (now : Z) (l : loc) :
  world (step (step r (Invoke (CallSave l)))
              (Resume (length (suspended r)) now))
  = snd (saveListing now l (world r)).
Proof.
  unfold saveListing. cbn. destruct (getDB (world r)) as [got w1]. cbn.
  rewrite lookup_app_r, Nat.sub_diag by lia. reflexivity.
Qed.

Lemma one_handle_step (r : Run) (e : Event) :
  one_handle r -> one_handle (step r e).
Proof.
  unfold one_handle. intros Hr. destruct e as [c|k now]; cbn.
  - unfold getDB, openDB.
    destruct (idb (world r)) eqn:Hidb;
      destruct (dbPromise (world r)) as [p|] eqn:Hp; cbn; rewrite ?Hidb, ?Hp.
    + destruct Hr as (Ho & Hhead & Hall & Hcalls). repeat split; try done.
      * destruct (handed r); [discriminate|exact Hhead].
      * apply Forall_app. split; [done|]. by constructor.
    + destruct Hr as (-> & -> & ->). cbn. repeat split.
      by repeat constructor.
    + destruct Hr as (Ho & Hhead & Hall & Hcalls). repeat split; try done.
      * destruct (handed r); [discriminate|exact Hhead].
      * apply Forall_app. split; [done|]. by constructor.
    + destruct Hr as (-> & -> & ->). cbn. repeat split.
      by repeat constructor.
    + destruct Hr as (Hnone & _). discriminate.
    + destruct Hr as (_ & Ho & Hall & Hcalls). repeat split; try done.
      * apply Forall_app. split; [done|]. by constructor.
      * rewrite length_app. cbn. lia.
  - destruct (suspended r !! k) as [t|]; [|exact Hr]. cbn.
    destruct (resume_frame t now (world r)) as (-> & -> & -> & ->). exact Hr.
Qed.

Lemma one_handle_run (events : list Event) (r : Run) :
  one_handle r -> one_handle (run_events events r).
Proof.
  revert r. induction events as [|e events IH]; intros r Hr; cbn; [done|].
  apply IH. by apply one_handle_step.
Qed.

Lemma step_idb (r : Run) (e : Event) : idb (world (step r e)) = idb (world r).
Proof.
  destruct e as [c|k now]; cbn.
  - pose proof (getDB_idb (world r)) as Hidb.
    by destruct (getDB (world r)) as [got w1].
  - destruct (suspended r !! k) as [t|]; [|done]. cbn.
    by destruct (resume_frame t now (world r)) as (_ & _ & _ & ->).
Qed.

Lemma run_idb (events : list Event) (r : Run) :
  idb (world (run_events events r)) = idb (world r).
Proof.
  revert r. induction events as [|e events IH]; intros r; cbn; [done|].
  by rewrite IH, step_idb.
Qed.

Lemma one_handle_fresh (h : gmap loc StoredListing) (browser : OpenBehaviour)
    (m : gmap string StoredListing) :
  one_handle (fresh_process h browser m).
Proof. unfold one_handle. destruct browser; cbn; auto. Qed.

(** C8, as stated, fails: in a browser where [openDB] throws, the first
    [getDB] call creates no promise, [dbPromise] stays [null], and the
    call after it runs [openDB] again; what the two calls return are
    rejections, not a promise that the first call created. *)
Lemma getDB_reopens_when_openDB_throws :
  ~ (forall (h : gmap loc StoredListing) (browser : OpenBehaviour)
            (m : gmap string StoredListing) (events : list Event),
       let r := run_events events (fresh_process h browser m) in
       length (opened (world r)) <= 1 /\
       (forall got : Result Promise,
          got ∈ handed r ->
          exists p,
            got = Ok p /\ opened (world r) = [p] /\
            dbPromise (world r) = Some p /\ head (handed r) = Some (Ok p))).
Proof.
  intros Hall.
  destruct (Hall ∅ ThrowsSync ∅ [Invoke CallGetAll; Invoke CallGetAll])
    as [_ Hhanded].
  destruct (Hhanded (Throw StorageUnavailable)) as (p & Hp & _).
  - vm_compute. right. left.
  - discriminate.
Qed.

Example getDB_openDB_throws_twice :
  let r := run_events [Invoke CallGetAll; Invoke CallGetAll]
             (fresh_process ∅ ThrowsSync ∅) in
  openDB_calls (world r) = 2 /\ dbPromise (world r) = None /\
  handed r = [Throw StorageUnavailable; Throw StorageUnavailable].
Proof. vm_compute. auto. Qed.

(** C8 (amended): in a process that has just loaded the module, however
    the calls to the exported functions are invoked and resumed, at most
    one database connection is ever requested. Where [openDB] returns a
    promise (fulfilled or rejected later), [openDB] runs at most once and
    every [getDB] call returns the promise of that one call, the promise
    the first [getDB] call created. Where [openDB] throws, [dbPromise]
    stays [null], no promise is ever created, and every [getDB] call
    calls [openDB] again and is rejected. *)
Theorem getDB_idempotent
    (h : gmap loc StoredListing) (browser : OpenBehaviour)
    (m : gmap string StoredListing) (events : list Event) :
  let r := run_events events (fresh_process h browser m) in
  length (opened (world r)) <= 1 /\
  (browser <> ThrowsSync ->
   openDB_calls (world r) <= 1 /\
   (forall got : Result Promise,
      got ∈ handed r ->
      exists p,
        got = Ok p /\ opened (world r) = [p] /\
        dbPromise (world r) = Some p /\ head (handed r) = Some (Ok p))) /\
  (browser = ThrowsSync ->
   dbPromise (world r) = None /\ opened (world r) = [] /\
   openDB_calls (world r) = length (handed r) /\
   (forall got : Result Promise,
      got ∈ handed r -> got = Throw StorageUnavailable)).
Proof.
  cbv zeta.
  pose proof (one_handle_run events _ (one_handle_fresh h browser m)) as Hinv.
  pose proof (run_idb events (fresh_process h browser m)) as Hidb.
  set (r := run_events events (fresh_process h browser m)) in *.
  cbn in Hidb. unfold one_handle in Hinv. rewrite Hidb in Hinv.
  assert (Hsome : browser <> ThrowsSync ->
    match dbPromise (world r) with
    | Some p =>
        opened (world r) = [p] /\ head (handed r) = Some (Ok p) /\
        Forall (eq (Ok p)) (handed r) /\ openDB_calls (world r) = 1
    | None =>
        opened (world r) = [] /\ handed r = [] /\ openDB_calls (world r) = 0
    end) by (destruct browser; done).
  split; [|split].
  - destruct browser; destruct (dbPromise (world r));
      destruct Hinv as (H1 & H2 & H3); rewrite ?H1, ?H2; cbn; lia.
  - intros Hne. specialize (Hsome Hne).
    destruct (dbPromise (world r)) as [q|].
    + destruct Hsome as (Ho & Hhead & Hforall & Hcalls).
      split; [lia|]. intros got Hgot. exists q.
      rewrite Forall_forall in Hforall. by rewrite <- (Hforall got Hgot).
    + destruct Hsome as (Ho & Hh & Hcalls). split; [lia|].
      intros got Hgot. rewrite Hh in Hgot. by apply elem_of_nil in Hgot.
  - intros ->. destruct Hinv as (Hnone & Ho & Hforall & Hcalls).
    repeat split; try done.
    intros got Hgot. rewrite Forall_forall in Hforall.
    by rewrite <- (Hforall got Hgot).
Qed.

Lemma getDB_idempotent_witness :
  let r := run_events
             [Invoke (CallSave 1%positive); Invoke (CallGet "listing_a");
              Invoke CallGetAll; Resume 1 7000%Z; Resume 0 7001%Z;
              Invoke (CallDelete "listing_a"); Resume 0 7002%Z]
             (fresh_process (heap world_three) Rejects ∅) in
  exists p,
    Ok 0 = Ok p /\ opened (world r) = [p] /\
    dbPromise (world r) = Some p /\ head (handed r) = Some (Ok p).
Proof.
  cbv zeta.
  apply (proj2 (proj1 (proj2
           (getDB_idempotent (heap world_three) Rejects ∅
              [Invoke (CallSave 1%positive); Invoke (CallGet "listing_a");
               Invoke CallGetAll; Resume 1 7000%Z; Resume 0 7001%Z;
               Invoke (CallDelete "listing_a"); Resume 0 7002%Z]))
           ltac:(discriminate))).
  vm_compute. do 3 right. left.
Defined.

(** The order of the index, read backwards, is newest first. *)

Lemma SFcompare_antisym (x y : spec_float) (c : comparison) :
  SFcompare x y = Some c -> SFcompare y x = Some (CompOpp c).
Proof.
  destruct x as [sx|sx| |sx mx ex], y as [sy|sy| |sy my ey];
    try discriminate;
    try (destruct sx); try (destruct sy); cbn;
    try (intros [= <-]; reflexivity).
  all: change (Pos.compare_cont Eq mx my) with (Pos.compare mx my).
  all: change (Pos.compare_cont Eq my mx) with (Pos.compare my mx).
  all: rewrite (Z.compare_antisym ex ey), (Pos.compare_antisym mx my).
  all: destruct (Z.compare ex ey); cbn; intros [= <-];
    rewrite ?CompOpp_involutive; reflexivity.
Qed.

Lemma ltb_asym (x y : float) :
  PrimFloat.ltb x y = true -> PrimFloat.ltb y x = false.
Proof.
  rewrite !ltb_spec. unfold SFltb.
  destruct (SFcompare (Prim2SF x) (Prim2SF y)) as [c|] eqn:Hc; [|discriminate].
  rewrite (SFcompare_antisym _ _ _ Hc). by destruct c.
Qed.

#[global] Instance by_date_total : Total by_date.
Proof.
  intros a b. unfold by_date, compare_numbers.
  destruct (PrimFloat.ltb (createdAt b) (createdAt a)) eqn:Hba.
  - right. by rewrite (ltb_asym _ _ Hba).
  - destruct (PrimFloat.ltb (createdAt a) (createdAt b)); [by left|].
    apply String.leb_total.
Qed.

Lemma by_date_not_older (a b : StoredListing) :
  by_date b a -> newer_or_same a b.
Proof.
  unfold by_date, compare_numbers, newer_or_same.
  by destruct (PrimFloat.ltb (createdAt a) (createdAt b)).
Qed.

Lemma Sorted_snoc {A : Type} (R : relation A) (l : list A) (x : A) :
  Sorted R l ->
  (forall y, last l = Some y -> R y x) ->
  Sorted R (l ++ [x]).
Proof.
  induction 1 as [|y l Hl IH Hy]; intros Hlast; cbn.
  - by repeat constructor.
  - constructor.
    + apply IH. intros z Hz. apply Hlast. destruct l; [discriminate|done].
    + destruct Hy as [|z l Hyz]; cbn; constructor; [|done].
      by apply Hlast.
Qed.

Lemma Sorted_rev_flip {A : Type} (R : relation A) (l : list A) :
  Sorted R l -> Sorted (flip R) (rev l).
Proof.
  induction 1 as [|x l Hl IH Hx]; cbn; [constructor|].
  apply Sorted_snoc; [exact IH|].
  intros y Hy. unfold flip.
  destruct Hx as [|z l Hxz]; cbn in Hy.
  - discriminate.
  - rewrite last_app in Hy. cbn in Hy. by injection Hy as <-.
Qed.

(** The list [getAllListings] returns runs from newest to oldest: no
    record is followed by a newer one. *)
Lemma getAllListings_newest_first (w : World) :
  idb_available w = true ->
  exists all, fst (getAllListings w) = Ok all /\ newest_first all.
Proof.
  intros Hav. exists (rev (index_by_date (listings w))).
  split; [by apply getAllListings_available|].
  unfold newest_first.
  rewrite <- (list_fmap_id (rev _)).
  apply (Sorted_fmap Datatypes.id (flip by_date)).
  - intros a b. apply by_date_not_older.
  - apply Sorted_rev_flip, (Sorted_merge_sort by_date).
Qed.
(** ** Further properties of the listing store *)

Lemma set_updatedAt_twice (t1 t2 : Z) (L : StoredListing) :
  set_updatedAt t2 (set_updatedAt t1 L) = set_updatedAt t2 L.
Proof. reflexivity. Qed.

Lemma index_by_date_empty : index_by_date ∅ = [].
Proof. unfold index_by_date. rewrite map_to_list_empty. reflexivity. Qed.

(** X1: [clearAllListings] empties the store: [getAllListings] then
    returns the empty list and [getListing] finds nothing under any key. *)
Theorem clear_then_read (w : World) (key : string) :
  idb_available w = true ->
  fst (clearAllListings w) = Ok tt /\
  fst (getAllListings (snd (clearAllListings w))) = Ok [] /\
  fst (getListing key (snd (clearAllListings w))) = Ok None /\
  heap (snd (clearAllListings w)) = heap w.
Proof.
  intros Hav.
  destruct (clearAllListings_available w Hav) as (w1 & -> & Hh & Hm & Hav1).
  cbn [fst snd]. split; [reflexivity|].
  rewrite (getAllListings_available w1 Hav1), Hm, index_by_date_empty.
  destruct (getListing_available w1 key Hav1) as (-> & _ & _).
  rewrite Hm, lookup_empty. auto.
Qed.

Lemma clear_then_read_witness :
  fst (getAllListings (snd (clearAllListings world_three))) = Ok [].
Proof. apply (clear_then_read world_three "stale"). reflexivity. Defined.

(** X2: a save replaces the whole record under its id: after two saves of
    objects with the same [id] (two objects or the same one twice) the
    store is what the second save alone would have left. *)
Theorem later_save_wins
    (w : World) (t1 t2 : Z) (l1 l2 : loc) (L1 L2 : StoredListing) :
  idb_available w = true ->
  heap w !! l1 = Some L1 ->
  heap w !! l2 = Some L2 ->
  id L1 = id L2 ->
  let w2 := snd (saveListing t2 l2 (snd (saveListing t1 l1 w))) in
  listings w2 = <[id L2 := set_updatedAt t2 L2]> (listings w) /\
  fst (getListing (id L2) w2) = Ok (Some (set_updatedAt t2 L2)).
Proof.
  intros Hav H1 H2 Hid. cbv zeta.
  destruct (saveListing_available w t1 l1 L1 H1 Hav)
    as (w1 & -> & Hh1 & Hm1 & Hav1). cbn [snd].
  assert (exists L2', heap w1 !! l2 = Some L2' /\
                      id L2' = id L2 /\
                      set_updatedAt t2 L2' = set_updatedAt t2 L2)
    as (L2' & H2' & Hid' & Hset).
  { rewrite Hh1. destruct (decide (l1 = l2)) as [->|Hne].
    - rewrite lookup_insert_eq. exists (set_updatedAt t1 L1).
      assert (L1 = L2) by congruence. subst L2. auto.
    - rewrite lookup_insert_ne by done. eauto. }
  destruct (saveListing_available w1 t2 l2 L2' H2' Hav1)
    as (w2 & -> & Hh2 & Hm2 & Hav2). cbn [snd].
  assert (Hm : listings w2 = <[id L2 := set_updatedAt t2 L2]> (listings w)).
  { rewrite Hm2, Hm1, Hid', Hset, Hid. apply insert_insert_eq. }
  split; [exact Hm|].
  destruct (getListing_available w2 (id L2) Hav2) as (-> & _ & _).
  by rewrite Hm, lookup_insert_eq.
Qed.

Lemma later_save_wins_witness :
  fst (getListing (id listing_ahead)
         (snd (saveListing 7000%Z 1%positive
            (snd (saveListing 6000%Z 1%positive world_ahead)))))
  = Ok (Some (set_updatedAt 7000%Z listing_ahead)).
Proof.
  apply (later_save_wins world_ahead 6000%Z 7000%Z 1%positive 1%positive
           listing_ahead listing_ahead); reflexivity.
Defined.

(** X3: [saveListing] writes one key only: what [getListing] finds under
    any other key is what was stored there before. *)
Theorem saveListing_other_keys
    (w : World) (now : Z) (l : loc) (L : StoredListing) (key : string) :
  idb_available w = true ->
  heap w !! l = Some L ->
  key <> id L ->
  fst (getListing key (snd (saveListing now l w))) = Ok (listings w !! key).
Proof.
  intros Hav Hl Hkey.
  destruct (saveListing_available w now l L Hl Hav) as (w1 & -> & _ & Hm & Hav1).
  cbn [snd]. destruct (getListing_available w1 key Hav1) as (-> & _ & _).
  by rewrite Hm, lookup_insert_ne.
Qed.

Lemma saveListing_other_keys_witness :
  fst (getListing "stale" (snd (saveListing 7000%Z 1%positive world_three)))
  = Ok (listings world_three !! "stale"%string).
Proof.
  apply (saveListing_other_keys world_three 7000%Z 1%positive listing_1000);
    first [reflexivity | discriminate].
Defined.

(** X4: [deleteListing] removes one key only and writes to no object of
    the caller. *)
Theorem deleteListing_other_keys (w : World) (key other : string) :
  idb_available w = true ->
  other <> key ->
  fst (getListing other (snd (deleteListing key w))) = Ok (listings w !! other) /\
  heap (snd (deleteListing key w)) = heap w.
Proof.
  intros Hav Hne.
  destruct (deleteListing_available w key Hav) as (w1 & -> & Hh & Hm & Hav1).
  cbn [snd]. destruct (getListing_available w1 other Hav1) as (-> & _ & _).
  by rewrite Hm, lookup_delete_ne.
Qed.

Lemma deleteListing_other_keys_witness :
  fst (getListing "stale" (snd (deleteListing "listing_a" world_three)))
  = Ok (listings world_three !! "stale"%string).
Proof.
  apply (deleteListing_other_keys world_three "listing_a" "stale");
    first [reflexivity | discriminate].
Defined.

(** X5: when the database cannot be opened, each of the five functions
    is rejected with the open error, and neither the store nor any object
    of the caller is touched; [saveListing] in particular does not stamp
    [updatedAt]. *)
Theorem unavailable_rejects_and_keeps
    (w : World) (now : Z) (l : loc) (key : string) :
  idb_available w = false ->
  (fst (saveListing now l w) = Throw StorageUnavailable /\
   heap (snd (saveListing now l w)) = heap w /\
   listings (snd (saveListing now l w)) = listings w) /\
  (fst (getListing key w) = Throw StorageUnavailable /\
   heap (snd (getListing key w)) = heap w /\
   listings (snd (getListing key w)) = listings w) /\
  (fst (getAllListings w) = Throw StorageUnavailable /\
   heap (snd (getAllListings w)) = heap w /\
   listings (snd (getAllListings w)) = listings w) /\
  (fst (deleteListing key w) = Throw StorageUnavailable /\
   heap (snd (deleteListing key w)) = heap w /\
   listings (snd (deleteListing key w)) = listings w) /\
  (fst (clearAllListings w) = Throw StorageUnavailable /\
   heap (snd (clearAllListings w)) = heap w /\
   listings (snd (clearAllListings w)) = listings w).
Proof.
  intros Hav.
  unfold saveListing, getListing, getAllListings, deleteListing,
    clearAllListings.
  after_getDB w got w1.
  destruct got as [p|e]; cbn [awaiting].
  - unfold saveListing_body, getListing_body, getAllListings_body,
      deleteListing_body, clearAllListings_body, await.
    rewrite Havailable, Hav. cbn. auto 10.
  - rewrite (Hthrows e eq_refl). cbn. auto 10.
Qed.

Lemma unavailable_rejects_and_keeps_witness :
  fst (saveListing 7000%Z 1%positive world_unavailable)
  = Throw StorageUnavailable.
Proof.
  apply (unavailable_rejects_and_keeps world_unavailable 7000%Z 1%positive
           "stale").
  reflexivity.
Defined.

Lemma getDB_listings (w : World) : listings (snd (getDB w)) = listings w.
Proof. by destruct (getDB_frame w) as (_ & Hm & _). Qed.

Lemma resume_keyed (t : Task) (now : Z) (w : World) :
  keyed (listings w) -> keyed (listings (resume t now w)).
Proof.
  intros Hk. unfold resume, awaiting, saveListing_body, getListing_body,
    getAllListings_body, deleteListing_body, clearAllListings_body.
  destruct (task_call t); destruct (task_awaited t) as [p|e]; try done;
    destruct (await p w); cbn; try done.
  - destruct (heap w !! listing) as [L|]; cbn; [|done].
    intros key L' Hlook. destruct (decide (id L = key)) as [<-|Hne].
    + rewrite lookup_insert_eq in Hlook. by injection Hlook as <-.
    + rewrite lookup_insert_ne in Hlook by done. by apply Hk.
  - intros k L' Hlook. destruct (decide (key = k)) as [->|Hne].
    + by rewrite lookup_delete_eq in Hlook.
    + rewrite lookup_delete_ne in Hlook by done. by apply Hk.
Qed.

Lemma step_keyed (r : Run) (e : Event) :
  keyed (listings (world r)) -> keyed (listings (world (step r e))).
Proof.
  intros Hk. destruct e as [c|k now]; cbn.
  - pose proof (getDB_listings (world r)) as Hm.
    destruct (getDB (world r)) as [got w1]. cbn in *. by rewrite Hm.
  - destruct (suspended r !! k) as [t|]; [|done]. cbn. by apply resume_keyed.
Qed.

(** X6: the store keeps every record under its own [id]: if that holds
    when a run starts, it holds after every sequence of invocations and
    resumptions of the exported functions. *)
Theorem run_keeps_keyed (events : list Event) (r : Run) :
  keyed (listings (world r)) ->
  keyed (listings (world (run_events events r))).
Proof.
  revert r. induction events as [|e events IH]; intros r Hk; cbn; [done|].
  apply IH. by apply step_keyed.
Qed.

Lemma run_keeps_keyed_witness :
  keyed (listings (world
    (run_events [Invoke (CallSave 1%positive); Invoke (CallDelete "listing_b");
                 Resume 1 7000%Z; Resume 0 7001%Z]
       (fresh_process (heap world_three) Opens ∅)))).
Proof.
  apply (run_keeps_keyed
           [Invoke (CallSave 1%positive); Invoke (CallDelete "listing_b");
            Resume 1 7000%Z; Resume 0 7001%Z]
           (fresh_process (heap world_three) Opens ∅)).
  intros key L Hlook. cbn in Hlook. by rewrite lookup_empty in Hlook.
Defined.

(** X7: in a store that keeps every record under its own [id],
    [getAllListings] returns exactly the records that [getListing] finds
    and whose [createdAt] is not [NaN]: a record is in the list if and only
    if [getListing] returns it for its [id] and its [createdAt] is a
    number the index accepts. *)
Theorem getAllListings_agrees_with_getListing
    (w : World) (L : StoredListing) :
  idb_available w = true ->
  keyed (listings w) ->
  exists all,
    fst (getAllListings w) = Ok all /\
    (L ∈ all <->
     fst (getListing (id L) w) = Ok (Some L) /\
     PrimFloat.is_nan (createdAt L) = false).
Proof.
  intros Hav Hk. exists (rev (index_by_date (listings w))).
  split; [by apply getAllListings_available|].
  rewrite index_by_date_Permutation, list_elem_of_filter, elem_of_stored.
  destruct (getListing_available w (id L) Hav) as (-> & _ & _).
  unfold indexed. split.
  - intros (Hnan & key & Hlook). split; [|done].
    rewrite (Hk key L Hlook). by rewrite Hlook.
  - intros (Hget & Hnan). split; [done|]. exists (id L). congruence.
Qed.

Lemma getAllListings_agrees_with_getListing_witness :
  exists all,
    fst (getAllListings world_keyed) = Ok all /\
    (listing_ahead ∈ all
     <-> fst (getListing (id listing_ahead) world_keyed)
         = Ok (Some listing_ahead) /\
         PrimFloat.is_nan (createdAt listing_ahead) = false).
Proof.
  apply (getAllListings_agrees_with_getListing world_keyed listing_ahead).
  - reflexivity.
  - intros key L Hlook. cbn in Hlook.
    apply lookup_singleton_Some in Hlook as [<- <-]. reflexivity.
Defined.

(** X8: in such a store no two records of [getAllListings] share an
    [id]; the list is never longer than the store is large, and it is as
    long when no stored record has [NaN] for [createdAt]. *)
Theorem getAllListings_distinct_ids (w : World) :
  idb_available w = true ->
  keyed (listings w) ->
  exists all,
    fst (getAllListings w) = Ok all /\
    NoDup (id <$> all) /\
    length all <= size (listings w) /\
    (all_indexed (listings w) -> length all = size (listings w)).
Proof.
  intros Hav Hk. exists (rev (index_by_date (listings w))).
  split; [by apply getAllListings_available|].
  pose proof (index_by_date_Permutation (listings w)) as Hperm.
  rewrite Hperm. unfold stored. split; [|split].
  - apply (sublist_NoDup _ (id <$> (snd <$> map_to_list (listings w)))).
    + rewrite <- list_fmap_compose.
      rewrite (Forall_fmap_ext_1 (id ∘ snd) fst).
      * apply NoDup_fst_map_to_list.
      * apply Forall_forall. intros [key L] Hin. cbn. apply Hk.
        by apply elem_of_map_to_list.
    + apply fmap_sublist, sublist_filter.
  - rewrite <- length_map_to_list, <- (length_fmap snd). apply length_filter.
  - intros Hall. fold (stored (listings w)).
    rewrite (filter_indexed_all _ Hall). unfold stored.
    by rewrite length_fmap, length_map_to_list.
Qed.

Lemma getAllListings_distinct_ids_witness :
  exists all,
    fst (getAllListings world_keyed) = Ok all /\
    NoDup (id <$> all) /\
    length all <= size (listings world_keyed) /\
    (all_indexed (listings world_keyed) ->
     length all = size (listings world_keyed)).
Proof.
  apply (getAllListings_distinct_ids world_keyed).
  - reflexivity.
  - intros key L Hlook. cbn in Hlook.
    apply lookup_singleton_Some in Hlook as [<- <-]. reflexivity.
Defined.

Lemma length_index_by_date (m : gmap string StoredListing) :
  length (rev (index_by_date m)) = length (filter indexed (stored m)).
Proof. by rewrite (index_by_date_Permutation m). Qed.

Lemma all_indexed_insert (m : gmap string StoredListing) (key : string)
    (L : StoredListing) :
  all_indexed m -> indexed L -> all_indexed (<[key := L]> m).
Proof.
  intros Hall HL k L' Hlook. destruct (decide (key = k)) as [->|Hne].
  - rewrite lookup_insert_eq in Hlook. by injection Hlook as <-.
  - rewrite lookup_insert_ne in Hlook by done. by apply (Hall k).
Qed.

(** X9: in a store whose records all have a valid [createdAt], saving a
    listing whose [createdAt] is not [NaN] makes the list of
    [getAllListings] one record longer when the [id] is new to the store
    and leaves its length as it was when the [id] is already there;
    saving a listing with a new [id] and [NaN] for [createdAt] leaves the
    length as it was, although a record has been added. *)
Theorem saveListing_record_count
    (w : World) (now : Z) (l : loc) (L : StoredListing) :
  idb_available w = true ->
  heap w !! l = Some L ->
  all_indexed (listings w) ->
  exists before after,
    fst (getAllListings w) = Ok before /\
    fst (getAllListings (snd (saveListing now l w))) = Ok after /\
    (PrimFloat.is_nan (createdAt L) = false ->
     length after
     = match listings w !! id L with
       | Some _ => length before
       | None => S (length before)
       end) /\
    (PrimFloat.is_nan (createdAt L) = true ->
     listings w !! id L = None ->
     length after = length before /\
     size (listings (snd (saveListing now l w))) = S (size (listings w))).
Proof.
  intros Hav Hl Hall.
  destruct (saveListing_available w now l L Hl Hav) as (w1 & -> & _ & Hm & Hav1).
  cbn [snd]. eexists _, _.
  split; [by apply getAllListings_available|].
  split; [by apply getAllListings_available|].
  rewrite !length_index_by_date, (filter_indexed_all _ Hall), Hm. split.
  - intros Hnan.
    rewrite (filter_indexed_all (<[id L := set_updatedAt now L]> (listings w)))
      by (by apply all_indexed_insert).
    unfold stored. rewrite !length_fmap, !length_map_to_list, map_size_insert.
    by destruct (listings w !! id L).
  - intros Hnan Hnew. split; [|by apply map_size_insert_None].
    unfold stored at 1. rewrite (map_to_list_insert _ _ _ Hnew).
    rewrite fmap_cons, filter_cons_False.
    + fold (stored (listings w)). by rewrite (filter_indexed_all _ Hall).
    + unfold indexed. cbn. by rewrite Hnan.
Qed.

Lemma saveListing_record_count_witness :
  exists before after,
    fst (getAllListings world_three) = Ok before /\
    fst (getAllListings (snd (saveListing 7000%Z 1%positive world_three)))
    = Ok after /\
    (PrimFloat.is_nan (createdAt listing_1000) = false ->
     length after
     = match listings world_three !! id listing_1000 with
       | Some _ => length before
       | None => S (length before)
       end) /\
    (PrimFloat.is_nan (createdAt listing_1000) = true ->
     listings world_three !! id listing_1000 = None ->
     length after = length before /\
     size (listings (snd (saveListing 7000%Z 1%positive world_three)))
     = S (size (listings world_three))).
Proof.
  apply (saveListing_record_count world_three 7000%Z 1%positive listing_1000);
    [reflexivity | reflexivity |].
  intros key L Hlook. cbn in Hlook.
  apply lookup_singleton_Some in Hlook as [_ <-]. reflexivity.
Defined.

(** X10: the record a save stores satisfies the listing invariants
    exactly when the clock reading of the save is not before the
    listing's [createdAt] ([createdAt <= now]): a valid listing created
    ahead of the clock is stored with [updatedAt < createdAt]. *)
Theorem saved_record_validity
    (w : World) (now : Z) (l : loc) (L : StoredListing) :
  idb_available w = true ->
  heap w !! l = Some L ->
  valid_listing L ->
  exists L',
    fst (getListing (id L) (snd (saveListing now l w))) = Ok (Some L') /\
    (valid_listing L' <-> JS.le_int (createdAt L) now = true).
Proof.
  intros Hav Hl [_ Himages].
  destruct (save_then_get_record w now l L Hl Hav) as (_ & Hget).
  exists (set_updatedAt now L). split; [exact Hget|].
  unfold valid_listing. cbn. tauto.
Qed.

Lemma saved_record_validity_witness :
  exists L',
    fst (getListing (id listing_ahead)
           (snd (saveListing 4000%Z 1%positive world_ahead))) = Ok (Some L') /\
    (valid_listing L' <-> JS.le_int (createdAt listing_ahead) 4000 = true).
Proof.
  apply (saved_record_validity world_ahead 4000%Z 1%positive listing_ahead);
    [reflexivity | reflexivity | split; [vm_compute; reflexivity | cbn; lia]].
Defined.

(** ** Further properties of the price heuristic *)

Lemma SpecPrice_price_between (cat cond : string) :
  integer_between 3 200 (JS.Number (SpecPrice.price cat cond)).
Proof.
  unfold integer_between, SpecPrice.price, SpecPrice.base, SpecPrice.multiplier.
  repeat (destruct (String.eqb cat _));
    repeat (destruct (String.eqb cond _));
    (eexists _, _; split; [reflexivity|];
     split; [vm_compute; reflexivity | lia]).
Qed.

Lemma SpecPrice_price_truthy (cat cond : string) :
  JS.truthy_number (SpecPrice.price cat cond) = true.
Proof.
  unfold SpecPrice.price, SpecPrice.base, SpecPrice.multiplier.
  repeat (destruct (String.eqb cat _));
    repeat (destruct (String.eqb cond _)); vm_compute; reflexivity.
Qed.

(** X11: with no estimated price, and category and condition other than
    the names [Object.prototype] defines, the suggested price is an integer
    between 3 and 200. *)
Theorem suggestPrice_heuristic_bounds (facts : ProductFacts) :
  estimatedPrice facts = None ->
  JS.inherited_key (category facts) = false ->
  JS.inherited_key (condition facts) = false ->
  integer_between 3 200 (suggestPrice facts).
Proof.
  intros Hnone Hcat Hcond. rewrite suggestPrice_heuristic by done.
  apply SpecPrice_price_between.
Qed.

Lemma suggestPrice_heuristic_bounds_witness :
  integer_between 3 200 (suggestPrice (facts_of "Books" "Poor" None)).
Proof.
  apply (suggestPrice_heuristic_bounds (facts_of "Books" "Poor" None));
    reflexivity.
Defined.

(** X12: for every category other than the names [Object.prototype]
    defines, the suggested prices fall strictly along the conditions:
    New > Like New > Good > Fair > Poor. *)
Theorem suggestPrice_condition_chain (cat : string) :
  JS.inherited_key cat = false ->
  let price cond := suggestPrice (facts_of cat cond None) in
  greater (price "New") (price "Like New") = true /\
  greater (price "Like New") (price "Good") = true /\
  greater (price "Good") (price "Fair") = true /\
  greater (price "Fair") (price "Poor") = true.
Proof.
  intros Hcat. cbv beta zeta. rewrite !suggestPrice_heuristic by done.
  cbn [category condition facts_of].
  unfold greater, SpecPrice.price, SpecPrice.base.
  repeat (destruct (String.eqb cat _)); repeat split; vm_compute; reflexivity.
Qed.

Lemma suggestPrice_condition_chain_witness :
  greater (suggestPrice (facts_of "Vinyl records" "New" None))
          (suggestPrice (facts_of "Vinyl records" "Like New" None)) = true.
Proof.
  apply (suggestPrice_condition_chain "Vinyl records"). reflexivity.
Defined.

Lemma suggestPrice_returns_estimate_aux (facts : ProductFacts) (p : float) :
  estimatedPrice facts = Some p ->
  JS.truthy_number p = true ->
  suggestPrice facts = JS.Number p.
Proof.
  intros Hp Htruthy. unfold suggestPrice. rewrite Hp. cbn.
  by rewrite Htruthy.
Qed.

(** X13: the price the editor puts on a generated listing is the value of
    [suggestPrice], whatever price the generated content carried: for
    category and condition other than the names [Object.prototype]
    defines, [suggestPrice] is truthy and the fallback of [||] is never
    taken. *)
Theorem handleGenerate_price_is_suggestPrice
    (facts : ProductFacts) (listingContent : ListingContent) :
  JS.inherited_key (category facts) = false ->
  JS.inherited_key (condition facts) = false ->
  handleGenerate_price facts listingContent = suggestPrice facts /\
  exists x, suggestPrice facts = JS.Number x /\ JS.truthy_number x = true.
Proof.
  intros Hcat Hcond.
  assert (exists x, suggestPrice facts = JS.Number x /\ JS.truthy_number x = true)
    as (x & Hx & Htruthy).
  { destruct (estimatedPrice facts) as [p|] eqn:Hp.
    - destruct (JS.truthy_number p) eqn:Htp.
      + exists p. by rewrite (suggestPrice_returns_estimate_aux facts p Hp Htp).
      + eexists. split; [|apply SpecPrice_price_truthy].
        rewrite (suggestPrice_falsy_estimate facts p Hp Htp).
        by apply suggestPrice_heuristic.
    - eexists. split; [|apply SpecPrice_price_truthy].
      by apply suggestPrice_heuristic. }
  split; [|eauto].
  unfold handleGenerate_price, JS.or. rewrite Hx. cbn. by rewrite Htruthy.
Qed.

Lemma handleGenerate_price_is_suggestPrice_witness :
  handleGenerate_price (facts_of "Books" "Good" None)
    {| title := "Atlas"; description := "A book"; content_keywords := [];
       suggestedPrice := Some 12%float |}
  = suggestPrice (facts_of "Books" "Good" None).
Proof.
  apply (handleGenerate_price_is_suggestPrice (facts_of "Books" "Good" None));
    reflexivity.
Defined.

(** ** The image uploader *)

Lemma length_omap_le {A B : Type} (f : A -> option B) (l : list A) :
  length (omap f l) <= length l.
Proof.
  induction l as [|x l IH]; cbn; [lia|].
  destruct (f x); cbn; lia.
Qed.

Lemma length_slice0_le {A : Type} (stop : Z) (l : list A) :
  (0 <= stop)%Z -> (Z.of_nat (length (slice0 stop l)) <= stop)%Z.
Proof.
  intros Hstop. unfold slice0.
  destruct (Z.ltb_spec stop 0); [lia|]. rewrite length_take. lia.
Qed.

Lemma slice0_negative {A : Type} (stop : Z) (l : list A) :
  (stop < 0)%Z -> slice0 stop l = take (length l - Z.to_nat (- stop)) l.
Proof.
  intros Hstop. unfold slice0.
  destruct (Z.ltb_spec stop 0); [|lia]. f_equal. lia.
Qed.

Lemma slice0_sublist {A : Type} (stop : Z) (l : list A) (x : A) :
  x ∈ slice0 stop l -> x ∈ l.
Proof.
  unfold slice0. rewrite elem_of_take. intros (i & Hi & _).
  by apply list_elem_of_lookup_2 in Hi.
Qed.

(** X14: an uploader that is within its limit stays within it: the list
    [handleFileSelect] hands on begins with the images already there, is no
    longer than [maxImages], and every image added comes from a file whose
    type begins with "image/". *)
Theorem handleFileSelect_keeps_limit
    (images : list ImageData) (maxImages : Z) (files : list File) :
  (Z.of_nat (length images) <= maxImages)%Z ->
  exists newImages,
    handleFileSelect images maxImages (Some files) = Some (images ++ newImages) /\
    (Z.of_nat (length (images ++ newImages)) <= maxImages)%Z /\
    Forall (fun image => String.prefix "image/" (image_mimeType image) = true)
           newImages.
Proof.
  intros Hlimit. eexists. split; [reflexivity|]. split.
  - rewrite length_app.
    pose proof (length_omap_le fileToImageData
      (slice0 (maxImages - Z.of_nat (length images))
         (List.filter (fun file => String.prefix "image/" (file_type file))
            files))) as Hle.
    pose proof (length_slice0_le (maxImages - Z.of_nat (length images))
      (List.filter (fun file => String.prefix "image/" (file_type file))
         files)) as Hslice.
    lia.
  - apply Forall_forall. intros image Hin.
    apply list_elem_of_omap in Hin as (file & Hfile & Hconv).
    apply slice0_sublist, list_elem_of_In, filter_In in Hfile as [_ Hprefix].
    unfold fileToImageData in Hconv.
    destruct (file_read file); [|discriminate..].
    injection Hconv as <-. exact Hprefix.
Qed.

Lemma handleFileSelect_keeps_limit_witness :
  exists newImages,
    handleFileSelect [mkImageData "data:image/png;base64,AAAA" "image/png"] 2
      (Some [mkFile "image/jpeg" (Loaded "data:image/jpeg;base64,BBBB");
             mkFile "text/plain" (Loaded "data:text/plain;base64,CCCC");
             mkFile "image/gif" (Loaded "data:image/gif;base64,DDDD")])
    = Some ([mkImageData "data:image/png;base64,AAAA" "image/png"] ++ newImages) /\
    (Z.of_nat (length ([mkImageData "data:image/png;base64,AAAA" "image/png"]
                       ++ newImages)) <= 2)%Z /\
    Forall (fun image => String.prefix "image/" (image_mimeType image) = true)
           newImages.
Proof.
  apply (handleFileSelect_keeps_limit
           [mkImageData "data:image/png;base64,AAAA" "image/png"] 2).
  cbn. lia.
Defined.

(** X15: an uploader already over its limit is not closed to new files:
    with [excess] images beyond [maxImages], [slice] receives a negative
    bound and keeps all image files but the last [excess], and those are
    added. *)
Theorem handleFileSelect_over_limit
    (images : list ImageData) (maxImages : Z) (files : list File) :
  (maxImages < Z.of_nat (length images))%Z ->
  let imageFiles :=
    List.filter (fun file => String.prefix "image/" (file_type file)) files in
  let excess := Z.to_nat (Z.of_nat (length images) - maxImages) in
  handleFileSelect images maxImages (Some files)
  = Some (images
          ++ omap fileToImageData (take (length imageFiles - excess) imageFiles)).
Proof.
  intros Hover. cbv zeta. unfold handleFileSelect.
  rewrite slice0_negative by lia. do 4 f_equal. lia.
Qed.

Lemma handleFileSelect_over_limit_witness :
  handleFileSelect
    [mkImageData "a" "image/png"; mkImageData "b" "image/png"] 1
    (Some [mkFile "image/jpeg" (Loaded "c"); mkFile "image/gif" (Loaded "d")])
  = Some [mkImageData "a" "image/png"; mkImageData "b" "image/png";
          mkImageData "c" "image/jpeg"].
Proof.
  apply (handleFileSelect_over_limit
           [mkImageData "a" "image/png"; mkImageData "b" "image/png"] 1
           [mkFile "image/jpeg" (Loaded "c"); mkFile "image/gif" (Loaded "d")]).
  cbn. lia.
Defined.

Lemma filter_index_past {A : Type} (index k : nat) (l : list A) :
  index < k ->
  filter_index (fun i => negb (Nat.eqb i index)) k l = l.
Proof.
  revert k. induction l as [|x l IH]; intros k Hlt; cbn; [done|].
  destruct (Nat.eqb_spec k index); [lia|]. cbn. by rewrite IH by lia.
Qed.

Lemma filter_index_delete {A : Type} (index k : nat) (l : list A) :
  k <= index ->
  filter_index (fun i => negb (Nat.eqb i index)) k l = delete (index - k) l.
Proof.
  revert k. induction l as [|x l IH]; intros k Hle; cbn; [done|].
  destruct (Nat.eqb_spec k index) as [->|Hne]; cbn.
  - rewrite Nat.sub_diag. cbn. apply filter_index_past. lia.
  - rewrite IH by lia. replace (index - k) with (S (index - S k)) by lia.
    reflexivity.
Qed.

(** X16: [removeImage] takes out the image at the given index and keeps
    the others in their order; an index past the end changes nothing. *)
Theorem removeImage_at_index (images : list ImageData) (index : nat) :
  removeImage images index = take index images ++ drop (S index) images /\
  (index < length images ->
   S (length (removeImage images index)) = length images) /\
  (length images <= index -> removeImage images index = images).
Proof.
  unfold removeImage. rewrite filter_index_delete by lia.
  rewrite Nat.sub_0_r, delete_take_drop. split; [done|]. split.
  - intros Hlt. rewrite length_app, length_take, length_drop. lia.
  - intros Hge. rewrite take_ge, drop_ge by lia. by rewrite app_nil_r.
Qed.

Lemma removeImage_at_index_witness :
  S (length (removeImage
       [mkImageData "a" "image/png"; mkImageData "b" "image/png"] 1))
  = length [mkImageData "a" "image/png"; mkImageData "b" "image/png"].
Proof.
  apply (removeImage_at_index
           [mkImageData "a" "image/png"; mkImageData "b" "image/png"] 1).
  cbn. lia.
Defined.

(** ** [generateListingId] *)

Lemma string_of_uint_no_underscore (d : Decimal.uint) :
  ~ In "_"%char (String.list_ascii_of_string (NilEmpty.string_of_uint d)).
Proof.
  induction d; cbn; [tauto | intros [Hc|Hin]; [discriminate | auto] ..].
Qed.

Lemma Number_toString_no_underscore (n : Z) :
  ~ In "_"%char (String.list_ascii_of_string (Number_toString n)).
Proof.
  unfold Number_toString, NilZero.string_of_int, NilZero.string_of_uint.
  destruct (Z.to_int n) as [d|d]; destruct d eqn:Hd;
    try (cbn; intros [Hc|[]]; discriminate);
    try (cbn; intros [Hc|[Hc|[]]]; discriminate);
    rewrite <- Hd.
  all: try apply string_of_uint_no_underscore.
  all: cbn [String.list_ascii_of_string]; intros [Hc|Hin]; [discriminate|].
  all: revert Hin; apply string_of_uint_no_underscore.
Qed.

Lemma Number_toString_inj (n n' : Z) :
  Number_toString n = Number_toString n' -> n = n'.
Proof.
  unfold Number_toString. intros Heq. apply DecimalZ.to_int_inj.
  assert (Hpos : forall z, Z.to_int z <> Decimal.Pos Decimal.Nil).
  { intros [|p|p]; cbn; try discriminate.
    intros Hp. injection Hp as Hp. by apply Unsigned.to_uint_nonnil in Hp. }
  assert (Hneg : forall z, Z.to_int z <> Decimal.Neg Decimal.Nil).
  { intros [|p|p]; cbn; try discriminate.
    intros Hp. injection Hp as Hp. by apply Unsigned.to_uint_nonnil in Hp. }
  pose proof (NilZero.isi (Z.to_int n) (Hpos n) (Hneg n)) as H1.
  pose proof (NilZero.isi (Z.to_int n') (Hpos n') (Hneg n')) as H2.
  rewrite Heq in H1. congruence.
Qed.

Lemma append_cons (c : ascii) (a x : string) :
  (String c a ++ x)%string = String c (a ++ x)%string.
Proof. reflexivity. Qed.

Lemma append_empty (x : string) : ("" ++ x)%string = x.
Proof. reflexivity. Qed.

Lemma append_underscore_inj (a b x y : string) :
  ~ In "_"%char (String.list_ascii_of_string a) ->
  ~ In "_"%char (String.list_ascii_of_string b) ->
  (a ++ String "_" x = b ++ String "_" y)%string ->
  a = b /\ x = y.
Proof.
  revert b. induction a as [|c a IH]; intros [|c' b] Ha Hb Heq;
    rewrite ?append_cons, ?append_empty in Heq; cbn in Ha, Hb.
  - by injection Heq as ->.
  - injection Heq as <- _. tauto.
  - injection Heq as -> _. tauto.
  - injection Heq as -> Heq. destruct (IH b) as [-> ->]; auto.
Qed.

(** X17: two generated ids are equal only if they were made at the same
    clock reading and with the same nine characters taken from the random
    string; they are equal whenever both agree. *)
Theorem generateListingId_collision (now now' : Z) (random36 random36' : string) :
  generateListingId now random36 = generateListingId now' random36'
  <-> now = now' /\ substr 2 9 random36 = substr 2 9 random36'.
Proof.
  unfold generateListingId. split.
  - intros Heq. rewrite !append_cons, !append_empty in Heq.
    injection Heq as Heq.
    apply append_underscore_inj in Heq as [Hnum Hsuffix];
      try apply Number_toString_no_underscore.
    split; [by apply Number_toString_inj|exact Hsuffix].
  - intros [-> ->]. reflexivity.
Qed.

Lemma generateListingId_collision_witness :
  generateListingId 1700000000123 "0.4fzyo82mvyr"
  = generateListingId 1700000000123 "0.4fzyo82mvyr7q".
Proof.
  apply (generateListingId_collision 1700000000123 1700000000123
           "0.4fzyo82mvyr" "0.4fzyo82mvyr7q").
  split; reflexivity.
Defined.
